(** * ssf/samples.go: sample constructors, option modifiers and the random sampler

    A shallow embedding of package [ssf]'s [samples.go] and the properties
    of its sampling-rate logic.

    - [float32] values are IEEE-754 binary32 numbers, given by the Standard
      Library's [spec_float] at precision 24 and maximal exponent 128;
    - [time.Duration] is a 64-bit signed integer, a [Z] with its
      wrap-around written out;
    - [math/rand]'s generator is a state threaded through the sampler;
    - a run-time panic is a value of the [result] type. *)

From Stdlib Require Import ZArith Lia Bool.
From Stdlib Require Import Floats.SpecFloat.
From stdpp Require Import gmap strings list fin_maps.

Local Open Scope Z_scope.

(** ** binary32 *)

Module Float32.

Definition prec : Z := 24.
Definition emax : Z := 128.

Definition float32 : Type := spec_float.

(** A [float32] of the Go program is a canonical binary32 number. *)
Definition valid (x : float32) : bool := valid_binary prec emax x.

Definition mul (x y : float32) : float32 := SFmul prec emax x y.
Definition div (x y : float32) : float32 := SFdiv prec emax x y.
Definition leb (x y : float32) : bool := SFleb x y.
Definition ltb (x y : float32) : bool := SFltb x y.

(** The conversion [float32(n)] of an integer: round to nearest, ties to
    even. *)
Definition of_int (n : Z) : float32 := binary_normalize prec emax n 0 false.

Definition zero : float32 := S754_zero false.
(** 1.0 = 2^23 * 2^-23 *)
Definition one : float32 := S754_finite false 8388608 (-23).
(** 0.5 = 2^23 * 2^-24 *)
Definition half : float32 := S754_finite false 8388608 (-24).
(** 1.5 = 12582912 * 2^-23 *)
Definition one_and_half : float32 := S754_finite false 12582912 (-23).
(** the binary32 number nearest to -0.2: -13421773 * 2^-26 *)
Definition minus_point_two : float32 := S754_finite true 13421773 (-26).

(** [rate > 0 && rate <= 1] *)
Definition in_unit_interval (rate : float32) : bool :=
  ltb zero rate && leb rate one.

(** [0 <= u && u < 1], the range of [rand.Float32]. *)
Definition in_half_open (u : float32) : bool :=
  leb zero u && ltb u one.

End Float32.

Export Float32.

(** ** Run-time panics *)

Inductive runtime_error : Type :=
  | integer_divide_by_zero.

Inductive result (A : Type) : Type :=
  | Ok (a : A)
  | Panic (e : runtime_error).

Arguments Ok {A} a.
Arguments Panic {A} e.

Definition bind {A B : Type} (r : result A) (k : A -> result B) : result B :=
  match r with
  | Ok a => k a
  | Panic e => Panic e
  end.

(** ** time.Duration *)

Module Duration.

(** [time.Duration] is an [int64]: [in_range] are its values, [wrap] is
    the two's-complement wrap-around of a result. *)
Definition in_range (z : Z) : Prop := - 2 ^ 63 <= z < 2 ^ 63.

Definition wrap (z : Z) : Z := (z + 2 ^ 63) mod 2 ^ 64 - 2 ^ 63.

(** Integer division [a / b] of Go: truncated towards zero, the one
    overflow [MinInt64 / -1] wraps, and a zero divisor panics. *)
Definition quo (a b : Z) : result Z :=
  if b =? 0 then Panic integer_divide_by_zero
  else Ok (wrap (Z.quot a b)).

Definition Nanosecond : Z := 1.
Definition Microsecond : Z := 1000 * Nanosecond.
Definition Millisecond : Z := 1000 * Microsecond.
Definition Second : Z := 1000 * Millisecond.
Definition Minute : Z := 60 * Second.
Definition Hour : Z := 60 * Minute.

End Duration.

(** ** The sample record *)

(** Modelled from the spec: the declaration of the metric kinds is generated
    code that is not part of [samples.go]; the file uses these four. *)
Inductive SSFSample_Metric : Type :=
  | SSFSample_COUNTER
  | SSFSample_GAUGE
  | SSFSample_HISTOGRAM
  | SSFSample_SET.

(** A [map[string]string]; [None] is the nil map. *)
Definition tags : Type := option (gmap string string).

Module SSFSample.

(** Modelled from the spec: the declaration of the struct is generated
    code that is not part of [samples.go]; these are the fields the file
    reads and writes.  A field that a struct literal omits has its zero
    value: [0] for [Value], the empty string for [Message] and [Unit]. *)
Record t : Type := mk {
  Metric : SSFSample_Metric;
  Name : string;
  Value : float32;
  Message : string;
  Tags : tags;
  SampleRate : float32;
  Unit : string
}.

Definition set_SampleRate (r : float32) (s : t) : t :=
  mk (Metric s) (Name s) (Value s) (Message s) (Tags s) r (Unit s).

Definition set_Unit (u : string) (s : t) : t :=
  mk (Metric s) (Name s) (Value s) (Message s) (Tags s) (SampleRate s) u.

End SSFSample.

Abbreviation SSFSample := SSFSample.t.

(** ** Samples.Add *)

(** The slice [Batch]; [None] is the nil slice, the zero value of the
    field. *)
Record Samples : Type := { Batch : option (list SSFSample) }.

(** [Add] is a method on a pointer to [Samples]: the function maps the
    batch before the call to the one after it.  A nil [Batch] is first
    replaced by an empty slice. *)
Definition Add (s : Samples) (sample : list SSFSample) : Samples :=
  let batch :=
    match Batch s with
    | None => []
    | Some batch => batch
    end in
  {| Batch := Some (batch ++ sample) |}.

(** The samples of a batch, in their order; none for a nil slice. *)
Definition contents (s : Samples) : list SSFSample :=
  match Batch s with
  | None => []
  | Some batch => batch
  end.

(** ** Option modifiers *)

(** [Unit(name)] is a [func(SSFSample)]: the struct is received by value.
    [Unit_callee] is the closure's own parameter [s] after the assignment
    [s.Unit = name]; the closure returns nothing, so [Unit] is the sample of
    the caller after the call, which the assignment does not reach. *)
Definition Unit_callee (name : string) (s : SSFSample) : SSFSample :=
  SSFSample.set_Unit name s.

Definition Unit (name : string) (arg : SSFSample) : SSFSample :=
  let s := Unit_callee name arg in
  arg.

(** [SampleRate(rate)] is a function on a pointer to an [SSFSample]: it maps
    the pointed-to sample before the call to the one after it. *)
Definition SampleRate (rate : float32) (s : SSFSample) : SSFSample :=
  if ltb zero rate && leb rate one
  then SSFSample.set_SampleRate rate s
  else s.

(** The entries of the map literal [resolutions]. *)
Definition resolution_table : list (Z * string) :=
  [ (Duration.Nanosecond, "ns"%string);
    (Duration.Microsecond, "µs"%string);
    (Duration.Millisecond, "ms"%string);
    (Duration.Second, "s"%string);
    (Duration.Minute, "min"%string);
    (Duration.Hour, "h"%string) ].

Definition resolutions : gmap Z string := list_to_map resolution_table.

(** [TimeUnit(resolution)] is a function on a pointer to an [SSFSample]. *)
Definition TimeUnit (resolution : Z) (s : SSFSample) : SSFSample :=
  match resolutions !! resolution with
  | Some unit => SSFSample.set_Unit unit s
  | None => s
  end.

(** ** Constructors *)

Definition create (base : SSFSample) : SSFSample := base.

Section Constructors.

(** The package variable [NamePrefix], read by every constructor. *)
Variable NamePrefix : string.

Definition Count (name : string) (value : float32) (tags : tags) : SSFSample :=
  create (SSFSample.mk SSFSample_COUNTER (NamePrefix +:+ name) value "" tags one "").

Definition Gauge (name : string) (value : float32) (tags : tags) : SSFSample :=
  create (SSFSample.mk SSFSample_GAUGE (NamePrefix +:+ name) value "" tags one "").

Definition Histogram (name : string) (value : float32) (tags : tags) : SSFSample :=
  create (SSFSample.mk SSFSample_HISTOGRAM (NamePrefix +:+ name) value "" tags one "").

(** [Set] of the source ([Set] is a keyword here): the string goes to
    [Message], and [Value] keeps its zero value. *)
Definition Set_ (name : string) (value : string) (tags : tags) : SSFSample :=
  create (SSFSample.mk SSFSample_SET (NamePrefix +:+ name) zero value tags one "").

(** [value / resolution] divides two [time.Duration]s, as integers, before
    the conversion to [float32]. *)
Definition Timing (name : string) (value resolution : Z) (tags : tags)
  : result SSFSample :=
  bind (Duration.quo value resolution) (fun q =>
    let time := of_int q in
    let ssfsample := Histogram name time tags in
    Ok (TimeUnit resolution ssfsample)).

End Constructors.

(** ** The sampler *)

Section Sampler.

(** The state of [math/rand]'s generator and [rand.Float32], which returns
    a number and the next state. *)
Context {Source : Type}.
Variable rand_Float32 : Source -> float32 * Source.

(** The [for ... range] loop of [RandomlySample]: [res] is the slice built
    so far. *)
Fixpoint RandomlySample_loop (rate : float32) (samples res : list SSFSample)
    (g : Source) : list SSFSample * Source :=
  match samples with
  | [] => (res, g)
  | s :: rest =>
      let '(u, g) := rand_Float32 g in
      if leb u rate then
        let s :=
          if ltb zero rate && leb rate one
          then SSFSample.set_SampleRate (mul (SSFSample.SampleRate s) rate) s
          else s in
        RandomlySample_loop rate rest (res ++ [s]) g
      else RandomlySample_loop rate rest res g
  end.

Definition RandomlySample (rate : float32) (samples : list SSFSample)
    (g : Source) : list SSFSample * Source :=
  RandomlySample_loop rate samples [] g.

(** *** Notions used to state the properties of the sampler *)

(** The numbers that [n] successive calls of [rand.Float32] return from
    the state [g], and the state they leave. *)
Fixpoint draws (n : nat) (g : Source) : list float32 :=
  match n with
  | O => []
  | S n => let '(u, g) := rand_Float32 g in u :: draws n g
  end.

Fixpoint advance (n : nat) (g : Source) : Source :=
  match n with
  | O => g
  | S n => advance n (snd (rand_Float32 g))
  end.

(** A chain of sampling passes, as a caller thinning a batch several
    times runs it: each pass samples the survivors of the one before. *)
Fixpoint sampling_passes (rates : list float32) (samples : list SSFSample)
    (g : Source) : list SSFSample * Source :=
  match rates with
  | [] => (samples, g)
  | rate :: rates =>
      let '(out, g) := RandomlySample rate samples g in
      sampling_passes rates out g
  end.

End Sampler.

(** The samples whose draw [u] passes the test [u <= rate], in their order:
    [us] is the list of draws, one for each sample. *)
Definition included (rate : float32) (samples : list SSFSample)
    (us : list float32) : list SSFSample :=
  map fst (List.filter (fun su => leb (snd su) rate) (combine samples us)).

(** The sample rate multiplied by [rate]. *)
Definition scaled (rate : float32) (s : SSFSample) : SSFSample :=
  SSFSample.set_SampleRate (mul (SSFSample.SampleRate s) rate) s.

(** [s'] and [s] are the same observation: they agree on every field but
    the sample rate. *)
Definition same_observation (s' s : SSFSample) : Prop :=
  SSFSample.set_SampleRate (SSFSample.SampleRate s) s' = s.

(** A sample rate that is a binary32 number of the interval [0,1]. *)
Definition rate_in_range (r : float32) : Prop :=
  valid r = true /\ leb zero r = true /\ leb r one = true.

(** [s'] is the observation [s] with a sample rate that is not above the
    one of [s]. *)
Definition thinned_from (s' s : SSFSample) : Prop :=
  same_observation s' s /\
  leb (SSFSample.SampleRate s') (SSFSample.SampleRate s) = true.

(** The sample rate that a sample of rate [r0] carries after it survived
    passes of the rates [rates], in this order: a rate of (0,1] multiplies,
    any other rate leaves it. *)
Definition rate_after (rates : list float32) (r0 : float32) : float32 :=
  foldl (fun r rate => if in_unit_interval rate then mul r rate else r)
    r0 rates.

(** A positive or negative zero. *)
Definition is_zero (u : float32) : bool :=
  match u with
  | S754_zero _ => true
  | _ => false
  end.

(** The integer that a binary32 number is, when it is one. *)
Definition integer_value (x : float32) : option Z :=
  match x with
  | S754_zero _ => Some 0
  | S754_finite s m e =>
      if 0 <=? e then Some (cond_Zopp s (Zpos m * 2 ^ e))
      else if Zpos m mod 2 ^ (- e) =? 0
           then Some (cond_Zopp s (Zpos m / 2 ^ (- e)))
           else None
  | _ => None
  end.

(** The value that the specification describes for [Timing]: the
    floating-point quotient of the duration by the resolution. *)
Definition Timing_quotient_spec (value resolution : Z) : float32 :=
  div (of_int value) (of_int resolution).

(** ** Sample data for the examples *)

Module Examples.

(** 0.25 and 0.75 *)
Definition quarter : float32 := S754_finite false 8388608 (-25).
Definition three_quarters : float32 := S754_finite false 12582912 (-24).

(** A generator that returns 0.25 and 0.75 in turn. *)
Definition alternating (g : bool) : float32 * bool :=
  (if g then three_quarters else quarter, negb g).

Definition requests : SSFSample := Count "" "requests" one None.
Definition latency : SSFSample := Histogram "" "latency" one_and_half None.

(** A sample that an earlier pass thinned to the rate 0.5. *)
Definition thinned : SSFSample := SSFSample.set_SampleRate half requests.

End Examples.

(** ** Auxiliary notions for the rounding of binary32 results *)

(** [mrs] is what [k] steps of the right shift make of the exact mantissa
    [M]: the quotient by [2^k], with the round and the sticky bit clear when
    nothing but zero bits was shifted out. *)
Definition shr_inv (M k : Z) (mrs : shr_record) : Prop :=
  shr_m mrs = M / 2 ^ k /\
  (M mod 2 ^ k = 0 -> shr_r mrs = false /\ shr_s mrs = false).

(** The result that [binary_round_aux] builds from the rounded mantissa [m]
    and its exponent [e]. *)
Definition round_result (sx : bool) (m e : Z) : float32 :=
  match m with
  | Z0 => S754_zero sx
  | Zpos p => if e <=? emax - prec then S754_finite sx p e else S754_infinity sx
  | Zneg _ => S754_nan
  end.

(** * Properties *)

(** ** Comparisons of binary32 numbers *)

Lemma compare_cont_Z (p q : positive) :
  Pos.compare_cont Eq p q = Z.compare (Zpos p) (Zpos q).
Proof. reflexivity. Qed.

Ltac compare_cases :=
  rewrite ?compare_cont_Z;
  repeat match goal with
  | |- context [Z.compare ?a ?b] => destruct (Z.compare_spec a b)
  end.

Section Float32_order.

(** [u < 1] and [1 <= rate] give [u <= rate]. *)
Lemma leb_of_ltb_one (u rate : float32) :
  ltb u one = true -> leb one rate = true -> leb u rate = true.
Proof.
  unfold ltb, leb, SFltb, SFleb, one.
  destruct u as [su|[]| |[] mu eu], rate as [sr|[]| |[] mr er];
    cbn [SFcompare]; try discriminate; try reflexivity.
  compare_cases; try discriminate; try reflexivity; lia.
Qed.

Lemma leb_of_ltb (u v : float32) : ltb u v = true -> leb u v = true.
Proof.
  unfold ltb, leb, SFltb, SFleb. destruct (SFcompare u v) as [[]|]; done.
Qed.

Lemma leb_trans (x y z : float32) :
  leb x y = true -> leb y z = true -> leb x z = true.
Proof.
  unfold leb, SFleb.
  destruct x as [sx|[]| |[] mx ex], y as [sy|[]| |[] my ey],
    z as [sz|[]| |[] mz ez];
    cbn [SFcompare]; try discriminate; try reflexivity;
    compare_cases; cbn [CompOpp]; try discriminate; try reflexivity; lia.
Qed.

End Float32_order.

(** ** Rounding of an exact product to binary32 *)

Section Float32_rounding.

Lemma fexp_binary32 (k : Z) : fexp prec emax k = Z.max (k - 24) (-149).
Proof. reflexivity. Qed.

Lemma digits2_pos_bounds (m : positive) :
  2 ^ (Zpos (digits2_pos m) - 1) <= Zpos m < 2 ^ Zpos (digits2_pos m).
Proof.
  induction m as [p IH|p IH|]; cbn [digits2_pos].
  - rewrite Pos2Z.inj_succ. pose proof (Pos2Z.inj_xI p).
    replace (Z.succ (Zpos (digits2_pos p)) - 1)
      with (Z.succ (Zpos (digits2_pos p) - 1)) by lia.
    rewrite !Z.pow_succ_r by lia. lia.
  - rewrite Pos2Z.inj_succ. pose proof (Pos2Z.inj_xO p).
    replace (Z.succ (Zpos (digits2_pos p)) - 1)
      with (Z.succ (Zpos (digits2_pos p) - 1)) by lia.
    rewrite !Z.pow_succ_r by lia. lia.
  - split; reflexivity.
Qed.

(** A number below [2^k] has at most [k] digits, one from [2^k] on has
    more than [k]. *)
Lemma digits2_pos_le (m : positive) (k : Z) :
  Zpos m < 2 ^ k -> Zpos (digits2_pos m) <= k.
Proof.
  intros Hm. pose proof (digits2_pos_bounds m) as [Hlo _].
  destruct (Z_le_gt_dec (Zpos (digits2_pos m)) k) as [|Hgt]; [done|].
  assert (2 ^ k <= 2 ^ (Zpos (digits2_pos m) - 1))
    by (apply Z.pow_le_mono_r; lia).
  lia.
Qed.

Lemma digits2_pos_gt (m : positive) (k : Z) :
  0 <= k -> 2 ^ k <= Zpos m -> k < Zpos (digits2_pos m).
Proof.
  intros Hk Hm. pose proof (digits2_pos_bounds m) as [_ Hhi].
  destruct (Z_lt_le_dec k (Zpos (digits2_pos m))) as [|Hle]; [done|].
  assert (2 ^ Zpos (digits2_pos m) <= 2 ^ k)
    by (apply Z.pow_le_mono_r; lia).
  lia.
Qed.

(** One step of the right shift halves the mantissa, and keeps the round
    and sticky bits clear as long as only zero bits were shifted out. *)
Lemma shr_1_nonneg (m : Z) (r s : bool) :
  0 <= m ->
  shr_1 (Build_shr_record m r s) = Build_shr_record (m / 2) (Z.odd m) (r || s).
Proof.
  intros Hm. rewrite <- Z.div2_div.
  destruct m as [|[p|p|]|p]; try reflexivity; lia.
Qed.

Lemma shr_1_inv (M k : Z) (mrs : shr_record) :
  0 <= M -> 0 <= k -> shr_inv M k mrs -> shr_inv M (k + 1) (shr_1 mrs).
Proof.
  intros HM Hk [Hm Hrs]. destruct mrs as [m r s]. cbn [shr_m shr_r shr_s] in *.
  assert (0 < 2 ^ k) by (apply Z.pow_pos_nonneg; lia).
  assert (0 <= m) by (subst m; apply Z.div_pos; lia).
  rewrite shr_1_nonneg by done. split; cbn [shr_m shr_r shr_s].
  - rewrite Z.pow_add_r, Z.pow_1_r, <- Z.div_div by lia. by rewrite Hm.
  - rewrite Z.pow_add_r, Z.pow_1_r, Z.rem_mul_r by lia. intros Hz.
    pose proof (Z.mod_pos_bound M (2 ^ k) ltac:(lia)).
    pose proof (Z.mod_pos_bound (M / 2 ^ k) 2 ltac:(lia)).
    assert (M mod 2 ^ k = 0) as Hlow by nia.
    assert ((M / 2 ^ k) mod 2 = 0) as Hbit by nia.
    destruct (Hrs Hlow) as [-> ->]. split; [|done].
    rewrite Hm. rewrite Zmod_odd in Hbit. by destruct (Z.odd (M / 2 ^ k)).
Qed.

Lemma iter_pos_shr_1_inv (p : positive) :
  forall (M k : Z) (mrs : shr_record),
    0 <= M -> 0 <= k -> shr_inv M k mrs ->
    shr_inv M (k + Zpos p) (SpecFloat.iter_pos shr_1 p mrs).
Proof.
  induction p as [p IH|p IH|]; intros M k mrs HM Hk Hinv; cbn [SpecFloat.iter_pos].
  - replace (k + Zpos p~1) with (k + 1 + Zpos p + Zpos p) by lia.
    apply IH; [lia..|]. apply IH; [lia..|]. by apply shr_1_inv.
  - replace (k + Zpos p~0) with (k + Zpos p + Zpos p) by lia.
    apply IH; [lia..|]. by apply IH.
  - by apply shr_1_inv.
Qed.

(** The first shift of [binary_round_aux] on an exact mantissa. *)
Lemma shr_fexp_exact (M : positive) (E : Z) :
  let e' := fexp prec emax (Zpos (digits2_pos M) + E) in
  E <= e' ->
  exists mrs,
    shr_fexp prec emax (Zpos M) E loc_Exact = (mrs, e') /\
    shr_inv (Zpos M) (e' - E) mrs.
Proof.
  intros e' He. unfold shr_fexp. cbn [Zdigits2 shr_record_of_loc].
  fold e'. unfold shr. destruct (e' - E) as [|p|p] eqn:Hn.
  - eexists. split; [f_equal; lia|].
    split; cbn [shr_m shr_r shr_s]; [|done].
    by rewrite Z.pow_0_r, Z.div_1_r.
  - eexists. split; [f_equal; lia|].
    change (Zpos p) with (0 + Zpos p).
    apply iter_pos_shr_1_inv; [lia..|].
    split; cbn [shr_m shr_r shr_s]; [|done].
    by rewrite Z.pow_0_r, Z.div_1_r.
  - lia.
Qed.

(** The second shift, on the rounded mantissa: it only acts when rounding
    carried into a 25th bit. *)
Lemma shr_fexp_rounded (m e : Z) :
  -149 <= e -> 0 <= m <= 2 ^ 24 -> (-149 < e -> 2 ^ 23 <= m) ->
  exists mrs,
    shr_fexp prec emax m e loc_Exact =
      (mrs, if m <? 2 ^ 24 then e else e + 1) /\
    shr_m mrs = if m <? 2 ^ 24 then m else 2 ^ 23.
Proof.
  intros He Hm Hnorm. unfold shr_fexp. rewrite fexp_binary32.
  cbn [shr_record_of_loc]. destruct (Z.ltb_spec m (2 ^ 24)) as [Hlt|Hge].
  - destruct m as [|p|p]; [| |lia].
    + cbn [Zdigits2]. unfold shr.
      destruct (Z.max (0 + e - 24) (-149) - e) eqn:Hn; [by eexists|lia|by eexists].
    + cbn [Zdigits2]. pose proof (digits2_pos_le p 24 Hlt) as Hd.
      assert (-149 < e -> 24 <= Zpos (digits2_pos p)) as Hd'.
      { intros He'. apply Hnorm in He'.
        pose proof (digits2_pos_gt p 23 ltac:(lia) He'). lia. }
      replace (Z.max (Zpos (digits2_pos p) + e - 24) (-149) - e) with 0 by lia.
      by eexists.
  - assert (m = 16777216) as -> by lia.
    change (Zdigits2 16777216) with 25.
    replace (Z.max (25 + e - 24) (-149) - e) with 1 by lia.
    eexists. split; reflexivity.
Qed.

Lemma round_nearest_even_bounds (m : Z) (l : location) :
  m <= round_nearest_even m l <= m + 1.
Proof.
  destruct l as [|[]]; cbn [round_nearest_even];
    try destruct (Z.even m); lia.
Qed.

(** What [binary_round_aux] makes of the exact number [M * 2^E], when its
    target exponent [e'] is not below [E]: the mantissa [m] is the
    quotient of [M] by [2^(e' - E)] or its successor, and the quotient
    itself when the division is exact. *)
Lemma binary_round_aux_exact (sx : bool) (M : positive) (E : Z) :
  let e' := fexp prec emax (Zpos (digits2_pos M) + E) in
  E <= e' ->
  exists m,
    (Zpos M / 2 ^ (e' - E) <= m <= Zpos M / 2 ^ (e' - E) + 1) /\
    (Zpos M mod 2 ^ (e' - E) = 0 -> m = Zpos M / 2 ^ (e' - E)) /\
    m <= 2 ^ 24 /\
    (-149 < e' -> 2 ^ 23 <= m) /\
    binary_round_aux prec emax sx (Zpos M) E loc_Exact =
      if m <? 2 ^ 24 then round_result sx m e'
      else round_result sx (2 ^ 23) (e' + 1).
Proof.
  intros e' He.
  destruct (shr_fexp_exact M E He) as (mrs & Hshr & Hm & Hexact).
  fold e' in Hshr, Hm, Hexact.
  set (n := e' - E) in *.
  set (m := round_nearest_even (shr_m mrs) (loc_of_shr_record mrs)).
  pose proof (round_nearest_even_bounds (shr_m mrs) (loc_of_shr_record mrs))
    as Hbounds. fold m in Hbounds.
  pose proof (digits2_pos_bounds M) as [Hlo Hhi].
  assert (e' = Z.max (Zpos (digits2_pos M) + E - 24) (-149)) as He'
    by apply fexp_binary32.
  assert (0 < 2 ^ n) as Hpow by (apply Z.pow_pos_nonneg; lia).
  assert (0 <= Zpos M / 2 ^ n) as Hq0 by (apply Z.div_pos; lia).
  assert (Zpos M / 2 ^ n < 2 ^ 24) as Hq1.
  { apply Z.div_lt_upper_bound; [done|].
    rewrite <- Z.pow_add_r by lia.
    assert (2 ^ Zpos (digits2_pos M) <= 2 ^ (n + 24))
      by (apply Z.pow_le_mono_r; lia).
    lia. }
  assert (-149 < e' -> 2 ^ 23 <= Zpos M / 2 ^ n) as Hq2.
  { intros Hnorm. apply Z.div_le_lower_bound; [done|].
    rewrite <- Z.pow_add_r by lia.
    replace (n + 23) with (Zpos (digits2_pos M) - 1) by lia. done. }
  exists m. rewrite Hm in Hbounds.
  split; [done|]. split.
  { intros Hz. destruct (Hexact Hz) as [Hr Hs]. unfold m.
    destruct mrs as [m0 r0 s0]. cbn [shr_m shr_r shr_s] in *. subst r0 s0.
    cbn [loc_of_shr_record round_nearest_even]. done. }
  split; [lia|]. split; [lia|].
  destruct (shr_fexp_rounded m e') as (mrs2 & Hshr2 & Hm2); [lia..|].
  unfold binary_round_aux. rewrite Hshr. fold m. rewrite Hshr2, Hm2.
  unfold round_result.
  destruct (m <? 2 ^ 24); reflexivity.
Qed.

End Float32_rounding.

(** ** Canonical binary32 numbers and their products *)

Section Float32_mul.

Lemma valid_finite_inv (s : bool) (m : positive) (e : Z) :
  valid (S754_finite s m e) = true ->
  fexp prec emax (Zpos (digits2_pos m) + e) = e /\
  -149 <= e <= 104 /\ Zpos m < 2 ^ 24 /\ (-149 < e -> 2 ^ 23 <= Zpos m).
Proof.
  unfold valid, valid_binary, bounded, canonical_mantissa.
  intros [Hc He]%andb_prop. apply Z.eqb_eq in Hc. apply Z.leb_le in He.
  change (emax - prec) with 104 in He.
  pose proof Hc as Hc'. rewrite fexp_binary32 in Hc'.
  pose proof (digits2_pos_bounds m) as [Hlo Hhi].
  split; [done|]. split; [lia|]. split.
  - assert (2 ^ Zpos (digits2_pos m) <= 2 ^ 24)
      by (apply Z.pow_le_mono_r; lia). lia.
  - intros Hnorm.
    replace 23 with (Zpos (digits2_pos m) - 1) by lia. done.
Qed.

Lemma valid_finite (s : bool) (m : positive) (e : Z) :
  -149 <= e <= 104 -> Zpos m < 2 ^ 24 -> (-149 < e -> 2 ^ 23 <= Zpos m) ->
  valid (S754_finite s m e) = true.
Proof.
  intros He Hm Hnorm.
  unfold valid, valid_binary, bounded, canonical_mantissa.
  apply andb_true_intro. split; [|apply Z.leb_le; change (emax - prec) with 104; lia].
  apply Z.eqb_eq. rewrite fexp_binary32.
  pose proof (digits2_pos_le m 24 Hm).
  assert (-149 < e -> 23 < Zpos (digits2_pos m))
    by (intros; apply digits2_pos_gt; [lia|auto]).
  lia.
Qed.

Lemma leb_finite_pos (m1 : positive) (e1 : Z) (m2 : positive) (e2 : Z) :
  leb (S754_finite false m1 e1) (S754_finite false m2 e2) = true <->
  e1 < e2 \/ (e1 = e2 /\ Zpos m1 <= Zpos m2).
Proof.
  unfold leb, SFleb. cbn [SFcompare]. compare_cases; split; try done; lia.
Qed.

(** Multiplication by 1.0 is the identity on canonical numbers. *)
Lemma mul_one (x : float32) : valid x = true -> mul x one = x.
Proof.
  destruct x as [[]|[]| |sx mx ex]; try reflexivity.
  intros (Hc & He & Hm & Hnorm)%valid_finite_inv.
  unfold mul, one. cbn [SFmul]. rewrite xorb_false_r.
  pose proof (digits2_pos_bounds mx) as [Hlo Hhi].
  assert (Zpos (mx * 8388608) = Zpos mx * 2 ^ 23) as HM by reflexivity.
  assert (Zpos (digits2_pos (mx * 8388608)) = Zpos (digits2_pos mx) + 23) as Hd.
  { apply Z.le_antisymm.
    - apply digits2_pos_le. rewrite HM, Z.pow_add_r by lia. nia.
    - assert (Zpos (digits2_pos mx) + 22 < Zpos (digits2_pos (mx * 8388608))); [|lia].
      apply digits2_pos_gt; [lia|]. rewrite HM.
      replace (Zpos (digits2_pos mx) + 22)
        with (Zpos (digits2_pos mx) - 1 + 23) by lia.
      rewrite Z.pow_add_r by lia. nia. }
  assert (fexp prec emax (Zpos (digits2_pos (mx * 8388608)) + (ex + -23)) = ex)
    as He'.
  { rewrite Hd.
    replace (Zpos (digits2_pos mx) + 23 + (ex + -23))
      with (Zpos (digits2_pos mx) + ex) by lia.
    exact Hc. }
  pose proof (binary_round_aux_exact sx (mx * 8388608) (ex + -23)) as Hround.
  cbv zeta in Hround. rewrite He' in Hround.
  destruct Hround as (m & _ & Hexact & _ & _ & ->); [lia|].
  replace (ex - (ex + -23)) with 23 in Hexact by lia.
  rewrite HM, Z.mod_mul, Z.div_mul in Hexact by lia.
  rewrite Hexact by done.
  destruct (Z.ltb_spec (Zpos mx) (2 ^ 24)) as [_|]; [|lia].
  unfold round_result. change (emax - prec) with 104.
  destruct (Z.leb_spec ex 104); [done|lia].
Qed.

(** A canonical rate [my * 2^ey] of the interval (0,1] is at most one as a
    real number: [my <= 2^(-ey)]. *)
Lemma unit_rate_inv (rate : float32) :
  valid rate = true -> in_unit_interval rate = true ->
  exists (my : positive) (ey : Z),
    rate = S754_finite false my ey /\
    -149 <= ey <= -23 /\ Zpos my <= 2 ^ (- ey).
Proof.
  unfold in_unit_interval. intros Hv [Hpos Hle]%andb_prop.
  destruct rate as [s|[]| |[] my ey]; try discriminate.
  exists my, ey. split; [done|].
  apply valid_finite_inv in Hv as (_ & He & Hm & _).
  apply leb_finite_pos in Hle as [Hlt|[-> Hle]].
  - split; [lia|].
    assert (2 ^ 24 <= 2 ^ (- ey)) by (apply Z.pow_le_mono_r; lia). lia.
  - split; [lia|]. exact Hle.
Qed.

(** The product of a canonical number [x >= 0] with a canonical rate of
    (0,1] is canonical, not negative and not above [x]: rounding to nearest
    cannot step over [x], which is itself a binary32 number. *)
Lemma mul_unit_rate (x rate : float32) :
  valid x = true -> valid rate = true ->
  leb zero x = true -> in_unit_interval rate = true ->
  valid (mul x rate) = true /\
  leb zero (mul x rate) = true /\
  leb (mul x rate) x = true.
Proof.
  intros Hx Hrate Hx0 Hunit.
  destruct (unit_rate_inv rate Hrate Hunit) as (my & ey & -> & Hey & Hmy).
  destruct x as [sx|[]| |[] mx ex]; try discriminate; [by destruct sx|done|].
  apply valid_finite_inv in Hx as (Hcx & Hex & Hmx & Hnx).
  unfold mul. cbn [SFmul xorb].
  set (M := (mx * my)%positive). set (E := ex + ey).
  assert (Zpos M = Zpos mx * Zpos my) as HM by reflexivity.
  pose proof (Pos2Z.is_pos mx) as Hmx0. pose proof (Pos2Z.is_pos my) as Hmy0.
  set (P := 2 ^ (- ey)) in *.
  assert (0 < P) as HP by (apply Z.pow_pos_nonneg; lia).
  assert (Zpos M <= Zpos mx * P) as HMP by nia.
  pose proof (binary_round_aux_exact false M E) as Hround.
  cbv zeta in Hround. rewrite fexp_binary32 in Hround.
  set (e' := Z.max (Zpos (digits2_pos M) + E - 24) (-149)) in *.
  (* the target exponent lies between [E] and [ex] *)
  assert (e' <= ex) as He'x.
  { assert (Zpos (digits2_pos M) <= 24 - ey); [|lia].
    apply digits2_pos_le. unfold Z.sub. rewrite Z.pow_add_r by lia.
    fold P. nia. }
  assert (E <= e') as HEe'.
  { destruct (Z.eq_dec ex (-149)) as [->|]; [lia|].
    assert (23 < Zpos (digits2_pos M)); [|lia].
    apply digits2_pos_gt; [lia|]. nia. }
  destruct (Hround HEe') as (m & Hm & Hexact & Hm24 & Hnorm & ->).
  clear Hround.
  (* [x] is the multiple [K] of [2^e'], and the mantissa stays below it *)
  set (n := e' - E) in *. set (t := ex - e').
  assert (0 < 2 ^ n) as Hn by (apply Z.pow_pos_nonneg; lia).
  assert (0 < 2 ^ t) as Ht by (apply Z.pow_pos_nonneg; lia).
  assert (P = 2 ^ n * 2 ^ t) as HPnt.
  { rewrite <- Z.pow_add_r by lia. unfold P. f_equal. lia. }
  set (K := Zpos mx * 2 ^ t).
  assert (Zpos M <= 2 ^ n * K) as HMK by (unfold K; nia).
  assert (Zpos M / 2 ^ n <= K) as HqK
    by (apply Z.div_le_upper_bound; [done|exact HMK]).
  assert (0 <= Zpos M / 2 ^ n) as Hq0 by (apply Z.div_pos; lia).
  assert (m <= K) as HmK.
  { destruct (Z.eq_dec (Zpos M / 2 ^ n) K) as [Heq|]; [|lia].
    rewrite Hexact; [lia|].
    pose proof (Z.mul_div_le (Zpos M) (2 ^ n) Hn) as Hle.
    rewrite Heq in Hle.
    replace (Zpos M) with (K * 2 ^ n) by lia. by apply Z.mod_mul; lia. }
  assert (t = 0 -> K = Zpos mx) as HK0.
  { intros Ht0. unfold K. rewrite Ht0. change (2 ^ 0) with 1. lia. }
  assert (t = 1 -> K = 2 * Zpos mx) as HK1.
  { intros Ht1. unfold K. rewrite Ht1. change (2 ^ 1) with 2. lia. }
  destruct (Z.ltb_spec m (2 ^ 24)) as [Hlt|Hge].
  - destruct m as [|p|p]; [done| |lia].
    unfold round_result. change (emax - prec) with 104.
    destruct (Z.leb_spec e' 104) as [_|]; [|lia].
    split; [apply valid_finite; lia|]. split; [done|].
    apply leb_finite_pos. lia.
  - assert (1 <= t) as Ht1.
    { destruct (Z.eq_dec t 0) as [Ht0|]; [|lia]. apply HK0 in Ht0. lia. }
    change (2 ^ 23) with 8388608.
    unfold round_result. change (emax - prec) with 104.
    destruct (Z.leb_spec (e' + 1) 104) as [_|]; [|lia].
    split; [apply valid_finite; lia|]. split; [done|].
    apply leb_finite_pos.
    destruct (Z.eq_dec t 1) as [Heq|]; [|lia]. apply HK1 in Heq. lia.
Qed.

End Float32_mul.

(** ** The sampling loop *)

Section Sampler_facts.

Context {Source : Type}.
Variable rand_Float32 : Source -> float32 * Source.

Lemma draws_length (n : nat) (g : Source) :
  length (draws rand_Float32 n g) = n.
Proof.
  induction n as [|n IH] in g |- *; cbn [draws]; [done|].
  destruct (rand_Float32 g) as [u g']. cbn [length]. by rewrite IH.
Qed.

Lemma draws_Forall (P : float32 -> Prop) (n : nat) (g : Source) :
  (forall g, P (fst (rand_Float32 g))) -> Forall P (draws rand_Float32 n g).
Proof.
  intros HP. induction n as [|n IH] in g |- *; cbn [draws]; [constructor|].
  specialize (HP g). destruct (rand_Float32 g) as [u g'].
  constructor; [exact HP|apply IH].
Qed.

(** The loop appends to [res] the included samples, each adjusted when
    the rate lies in (0,1], and draws one number for each sample. *)
Lemma RandomlySample_loop_spec (rate : float32) (samples res : list SSFSample)
    (g : Source) :
  RandomlySample_loop rand_Float32 rate samples res g =
    (res ++ map (fun s => if in_unit_interval rate then scaled rate s else s)
              (included rate samples (draws rand_Float32 (length samples) g)),
     advance rand_Float32 (length samples) g).
Proof.
  induction samples as [|s rest IH] in res, g |- *;
    cbn [RandomlySample_loop draws advance length].
  - by rewrite app_nil_r.
  - destruct (rand_Float32 g) as [u g']. cbn [snd].
    unfold included. cbn [combine List.filter snd].
    destruct (leb u rate); rewrite IH; [|done].
    by rewrite <- app_assoc.
Qed.

Lemma RandomlySample_spec (rate : float32) (samples : list SSFSample)
    (g : Source) :
  fst (RandomlySample rand_Float32 rate samples g) =
    map (fun s => if in_unit_interval rate then scaled rate s else s)
      (included rate samples (draws rand_Float32 (length samples) g)).
Proof. unfold RandomlySample. by rewrite RandomlySample_loop_spec. Qed.

End Sampler_facts.

Lemma included_sublist (rate : float32) (samples : list SSFSample)
    (us : list float32) :
  sublist (included rate samples us) samples.
Proof.
  unfold included.
  induction samples as [|s rest IH] in us |- *; [constructor|].
  destruct us as [|u us]; [apply sublist_nil_l|].
  cbn [combine List.filter snd]. destruct (leb u rate); cbn [map fst].
  - apply sublist_skip, IH.
  - apply sublist_cons, IH.
Qed.

Lemma included_all (rate : float32) (samples : list SSFSample)
    (us : list float32) :
  length us = length samples ->
  Forall (fun u => leb u rate = true) us ->
  included rate samples us = samples.
Proof.
  unfold included.
  induction samples as [|s rest IH] in us |- *; [done|].
  destruct us as [|u us]; [done|].
  intros [= Hlen] [Hu Hus]%Forall_cons.
  cbn [combine List.filter snd]. rewrite Hu. cbn [map fst].
  by rewrite IH.
Qed.

Lemma included_elem (rate : float32) (samples : list SSFSample)
    (us : list float32) (s : SSFSample) :
  s ∈ included rate samples us -> s ∈ samples.
Proof. apply sublist_subseteq, included_sublist. Qed.

Lemma ltb_one_not_unit (rate : float32) :
  ltb one rate = true -> in_unit_interval rate = false.
Proof.
  unfold in_unit_interval, ltb, leb, SFltb, SFleb, one, zero.
  destruct rate as [sr|[]| |[] mr er]; cbn [SFcompare andb];
    try discriminate; try reflexivity.
  compare_cases; try discriminate; try reflexivity; lia.
Qed.

Lemma in_unit_interval_one : in_unit_interval one = true.
Proof. reflexivity. Qed.

Lemma draw_le_rate (u rate : float32) :
  in_half_open u = true -> leb one rate = true -> leb u rate = true.
Proof.
  unfold in_half_open. intros [_ Hu]%andb_prop Hrate.
  by apply leb_of_ltb_one.
Qed.

Lemma leb_one_one : leb one one = true.
Proof. reflexivity. Qed.

Lemma scaled_one (s : SSFSample) :
  valid (SSFSample.SampleRate s) = true -> scaled one s = s.
Proof. intros Hv. unfold scaled. rewrite mul_one by done. by destruct s. Qed.

Lemma same_observation_adjusted (rate : float32) (s : SSFSample) :
  same_observation (if in_unit_interval rate then scaled rate s else s) s.
Proof.
  unfold same_observation, scaled.
  destruct (in_unit_interval rate); by destruct s.
Qed.

Lemma leb_refl (r : float32) : leb zero r = true -> leb r r = true.
Proof.
  unfold leb, SFleb, zero.
  destruct r as [sr|[]| |[] mr er]; cbn [SFcompare];
    try discriminate; try reflexivity.
  intros _. compare_cases; try reflexivity; lia.
Qed.

Lemma unit_interval_in_range (r : float32) :
  valid r = true -> in_unit_interval r = true -> rate_in_range r.
Proof.
  unfold in_unit_interval. intros Hv [Hpos Hle]%andb_prop.
  split; [done|]. split; [by apply leb_of_ltb|done].
Qed.

Lemma same_observation_trans (s1 s2 s3 : SSFSample) :
  same_observation s1 s2 -> same_observation s2 s3 -> same_observation s1 s3.
Proof.
  unfold same_observation. destruct s1, s2, s3. cbn.
  intros [= -> -> -> -> -> ->] [= -> -> -> -> -> ->]. done.
Qed.

Lemma thinned_from_refl (s : SSFSample) :
  rate_in_range (SSFSample.SampleRate s) -> thinned_from s s.
Proof.
  intros (_ & H0 & _). split; [by destruct s|by apply leb_refl].
Qed.

Lemma thinned_from_trans (s1 s2 s3 : SSFSample) :
  thinned_from s1 s2 -> thinned_from s2 s3 -> thinned_from s1 s3.
Proof.
  intros [Hobs1 Hle1] [Hobs2 Hle2]. split.
  - by eapply same_observation_trans.
  - by eapply leb_trans.
Qed.

(** A pass over samples with rates in [0,1] leaves rates in [0,1], none
    above what it was. *)
Lemma adjusted_thinned (rate : float32) (s : SSFSample) :
  valid rate = true -> rate_in_range (SSFSample.SampleRate s) ->
  let s' := if in_unit_interval rate then scaled rate s else s in
  thinned_from s' s /\ rate_in_range (SSFSample.SampleRate s').
Proof.
  intros Hrate Hs. destruct (in_unit_interval rate) eqn:Hunit; cbn zeta.
  - destruct Hs as (Hv & H0 & H1).
    destruct (mul_unit_rate (SSFSample.SampleRate s) rate Hv Hrate H0 Hunit)
      as (Hv' & H0' & Hle).
    split; [split; [by destruct s|exact Hle]|].
    split; [exact Hv'|]. split; [exact H0'|].
    by eapply leb_trans.
  - split; [by apply thinned_from_refl|done].
Qed.

Lemma sublist_Forall2_r {A B : Type} (R : A -> B -> Prop)
    (l1 l2 : list A) (k2 : list B) :
  sublist l1 l2 -> Forall2 R l2 k2 ->
  exists k1, sublist k1 k2 /\ Forall2 R l1 k1.
Proof.
  intros Hsub. revert k2.
  induction Hsub as [|x l1 l2 _ IH|x l1 l2 _ IH]; intros k2 HR.
  - exists []. split; [apply sublist_nil_l|constructor].
  - inversion HR as [|? y ? k2' Hxy HR']; subst.
    destruct (IH _ HR') as (k1 & Hk1 & Hl1).
    exists (y :: k1). split; [by apply sublist_skip|by constructor].
  - inversion HR as [|? y ? k2' Hxy HR']; subst.
    destruct (IH _ HR') as (k1 & Hk1 & Hl1).
    exists k1. split; [by apply sublist_cons|done].
Qed.

Section Sampler_passes.

Context {Source : Type}.
Variable rand_Float32 : Source -> float32 * Source.

Lemma RandomlySample_non_increasing (rate : float32)
    (samples : list SSFSample) (g : Source) :
  valid rate = true ->
  Forall (fun s => rate_in_range (SSFSample.SampleRate s)) samples ->
  let out := fst (RandomlySample rand_Float32 rate samples g) in
  (exists kept, sublist kept samples /\ Forall2 thinned_from out kept) /\
  Forall (fun s => rate_in_range (SSFSample.SampleRate s)) out.
Proof.
  intros Hrate Hsamples out. unfold out. rewrite RandomlySample_spec.
  set (kept := included rate samples
                 (draws rand_Float32 (length samples) g)).
  assert (Forall (fun s => rate_in_range (SSFSample.SampleRate s)) kept)
    as Hkept.
  { apply Forall_forall. intros s Hs%included_elem.
    by eapply Forall_forall in Hsamples. }
  split.
  - exists kept. split; [apply included_sublist|].
    apply Forall2_fmap_l, Forall_Forall2_diag.
    eapply Forall_impl; [exact Hkept|].
    intros s Hs. by apply adjusted_thinned.
  - apply Forall_fmap. eapply Forall_impl; [exact Hkept|].
    intros s Hs. by apply adjusted_thinned.
Qed.

End Sampler_passes.

(** ** Division of durations *)

Lemma wrap_in_range (z : Z) : Duration.in_range z -> Duration.wrap z = z.
Proof.
  unfold Duration.in_range, Duration.wrap. intros Hz.
  rewrite Z.mod_small by lia. lia.
Qed.

(** The quotient of two durations is a duration, but for the one overflow
    of the division. *)
Lemma quot_in_range (a b : Z) :
  Duration.in_range a -> b <> 0 -> ~ (a = - 2 ^ 63 /\ b = -1) ->
  Duration.in_range (Z.quot a b).
Proof.
  unfold Duration.in_range. intros Ha Hb Hov.
  assert (Z.abs (Z.quot a b) <= Z.abs a) as Habs.
  { rewrite <- Z.quot_abs by done. rewrite Z.quot_div_nonneg by lia.
    apply Z.div_le_upper_bound; nia. }
  destruct (Z.eq_dec (Z.quot a b) (2 ^ 63)) as [Heq|]; [|lia].
  exfalso. assert (a = - 2 ^ 63) as -> by lia.
  destruct (Z.eq_dec b 1) as [->|]; [by rewrite Z.quot_1_r in Heq|].
  assert (Z.abs b <> 1) as Hb1 by lia.
  assert (Z.abs (Z.quot (- 2 ^ 63) b) < 2 ^ 63); [|lia].
  rewrite <- Z.quot_abs by done. rewrite Z.quot_div_nonneg by lia.
  apply Z.div_lt; lia.
Qed.

Lemma resolutions_lookup_known (resolution : Z) (unit : string) :
  (resolution, unit) ∈ resolution_table ->
  resolutions !! resolution = Some unit.
Proof.
  intros Hin. apply elem_of_list_to_map; [|exact Hin].
  compute_done.
Qed.

Lemma resolutions_lookup_unknown (resolution : Z) :
  resolution ∉ map fst resolution_table ->
  resolutions !! resolution = None.
Proof. apply not_elem_of_list_to_map_1. Qed.

(** ** Sample rates of the samples that the package builds *)

Lemma one_in_range : rate_in_range one.
Proof. by apply unit_interval_in_range. Qed.

(** The constructors give every sample the rate 1.0, and neither modifier
    takes a rate out of [0,1]: the samples that the package's functions
    build from binary32 arguments have sample rates in that interval. *)
Lemma constructors_rate_in_range (NamePrefix name : string) (value : float32)
    (message : string) (tgs : tags) :
  rate_in_range (SSFSample.SampleRate (Count NamePrefix name value tgs)) /\
  rate_in_range (SSFSample.SampleRate (Gauge NamePrefix name value tgs)) /\
  rate_in_range (SSFSample.SampleRate (Histogram NamePrefix name value tgs)) /\
  rate_in_range (SSFSample.SampleRate (Set_ NamePrefix name message tgs)).
Proof. repeat split. Qed.

Lemma SampleRate_rate_in_range (rate : float32) (s : SSFSample) :
  valid rate = true -> rate_in_range (SSFSample.SampleRate s) ->
  rate_in_range (SSFSample.SampleRate (SampleRate rate s)).
Proof.
  intros Hrate Hs. unfold SampleRate.
  destruct (ltb zero rate && leb rate one) eqn:Hunit; [|done].
  by apply unit_interval_in_range.
Qed.

Lemma TimeUnit_rate_in_range (resolution : Z) (s : SSFSample) :
  rate_in_range (SSFSample.SampleRate s) ->
  rate_in_range (SSFSample.SampleRate (TimeUnit resolution s)).
Proof. unfold TimeUnit. by destruct (resolutions !! resolution). Qed.

(** * The claims *)

(** ** The sampler *)

(** C1: for a rate of (0,1], the output of [RandomlySample] consists of the
    samples whose draw passed [u <= rate], in their order, each with its
    sample rate [r0] replaced by the binary32 product [r0 * rate]; a sample
    that was not included has no counterpart in the output. *)
Theorem RandomlySample_scales_survivors {Source : Type}
    (rand_Float32 : Source -> float32 * Source)
    (rate : float32) (samples : list SSFSample) (g : Source) :
  in_unit_interval rate = true ->
  let out := fst (RandomlySample rand_Float32 rate samples g) in
  out = map (scaled rate)
          (included rate samples (draws rand_Float32 (length samples) g)) /\
  (forall s', s' ∈ out ->
     exists s, s ∈ samples /\
       SSFSample.SampleRate s' = mul (SSFSample.SampleRate s) rate /\
       s' = SSFSample.set_SampleRate (mul (SSFSample.SampleRate s) rate) s).
Proof.
  intros Hrate out. unfold out. rewrite RandomlySample_spec, Hrate.
  split; [done|].
  intros s' (s & -> & Hs)%list_elem_of_fmap.
  exists s. split; [by eapply included_elem|]. done.
Qed.

Lemma RandomlySample_scales_survivors_witness :
  in_unit_interval half = true /\
  fst (RandomlySample Examples.alternating half
         [Examples.requests; Examples.thinned; Examples.latency] false) =
    [SSFSample.set_SampleRate half Examples.requests;
     SSFSample.set_SampleRate half Examples.latency].
Proof.
  split; [reflexivity|].
  destruct (RandomlySample_scales_survivors Examples.alternating half
              [Examples.requests; Examples.thinned; Examples.latency] false)
    as [Hout _]; [reflexivity|].
  rewrite Hout. vm_compute. reflexivity.
Defined.

(** C2: for a rate outside (0,1], the output of [RandomlySample] consists of
    the samples whose draw passed the raw test [u <= rate], unchanged; for a
    rate above 1 and draws of [0,1), that is every sample. *)
Theorem RandomlySample_outside_unit_interval {Source : Type}
    (rand_Float32 : Source -> float32 * Source)
    (rate : float32) (samples : list SSFSample) (g : Source) :
  in_unit_interval rate = false ->
  let out := fst (RandomlySample rand_Float32 rate samples g) in
  out = included rate samples (draws rand_Float32 (length samples) g) /\
  (ltb one rate = true ->
   (forall g, in_half_open (fst (rand_Float32 g)) = true) ->
   out = samples).
Proof.
  intros Hrate out. unfold out. rewrite RandomlySample_spec, Hrate.
  rewrite map_id. split; [done|].
  intros Hgt Hrand. apply included_all; [apply draws_length|].
  apply draws_Forall. intros g'.
  apply draw_le_rate; [apply Hrand|by apply leb_of_ltb].
Qed.

Lemma RandomlySample_outside_unit_interval_witness :
  in_unit_interval one_and_half = false /\
  in_unit_interval minus_point_two = false /\
  fst (RandomlySample Examples.alternating one_and_half
         [Examples.requests; Examples.thinned; Examples.latency] false) =
    [Examples.requests; Examples.thinned; Examples.latency] /\
  fst (RandomlySample Examples.alternating minus_point_two
         [Examples.requests; Examples.thinned; Examples.latency] false) = [].
Proof.
  split; [by apply ltb_one_not_unit|]. split; [reflexivity|]. split.
  - apply (RandomlySample_outside_unit_interval Examples.alternating
             one_and_half); [by apply ltb_one_not_unit|reflexivity|].
    intros []; reflexivity.
  - destruct (RandomlySample_outside_unit_interval Examples.alternating
                minus_point_two
                [Examples.requests; Examples.thinned; Examples.latency] false)
      as [Hout _]; [reflexivity|].
    rewrite Hout. reflexivity.
Defined.

(** C4: with the rate 1.0 and draws of [0,1), [RandomlySample] returns
    every sample, and each with the sample rate it had: the product of a
    binary32 number with 1.0 is that number. *)
Theorem RandomlySample_rate_one {Source : Type}
    (rand_Float32 : Source -> float32 * Source)
    (samples : list SSFSample) (g : Source) :
  (forall g, in_half_open (fst (rand_Float32 g)) = true) ->
  Forall (fun s => valid (SSFSample.SampleRate s) = true) samples ->
  fst (RandomlySample rand_Float32 one samples g) = samples.
Proof.
  intros Hrand Hvalid. rewrite RandomlySample_spec, in_unit_interval_one.
  rewrite included_all.
  - induction Hvalid as [|s rest Hs _ IH]; [done|].
    cbn [map]. by rewrite scaled_one, IH.
  - apply draws_length.
  - apply draws_Forall. intros g'.
    apply draw_le_rate; [apply Hrand|apply leb_one_one].
Qed.

Lemma RandomlySample_rate_one_witness :
  fst (RandomlySample Examples.alternating one
         [Examples.requests; Examples.thinned; Examples.latency] false) =
    [Examples.requests; Examples.thinned; Examples.latency].
Proof.
  apply (RandomlySample_rate_one Examples.alternating).
  - intros []; reflexivity.
  - repeat constructor.
Defined.

(** C5: the output of [RandomlySample] is a subsequence of its input, up to
    the sample rate: its samples are, one for one and in the same order,
    the samples of a sublist of the input, equal to them in every field but
    the sample rate.  Nothing is duplicated, nothing is made up. *)
Theorem RandomlySample_subsequence {Source : Type}
    (rand_Float32 : Source -> float32 * Source)
    (rate : float32) (samples : list SSFSample) (g : Source) :
  exists kept : list SSFSample,
    sublist kept samples /\
    Forall2 same_observation
      (fst (RandomlySample rand_Float32 rate samples g)) kept /\
    (length (fst (RandomlySample rand_Float32 rate samples g)) <= length samples)%nat.
Proof.
  exists (included rate samples (draws rand_Float32 (length samples) g)).
  pose proof (included_sublist rate samples
                (draws rand_Float32 (length samples) g)) as Hsub.
  rewrite RandomlySample_spec. split; [done|]. split.
  - apply Forall2_fmap_l, Forall_Forall2_diag, Forall_forall.
    intros s _. apply same_observation_adjusted.
  - rewrite length_map. by apply sublist_length.
Qed.

(** ** Chains of sampling operations *)

(** C3, as stated, fails: the [SampleRate] modifier overwrites the sample
    rate, so it raises the rate 0.5 of a thinned sample to 1.0. *)
Lemma SampleRate_raises_sample_rate :
  in_unit_interval (SSFSample.SampleRate Examples.thinned) = true /\
  SSFSample.SampleRate (SampleRate one Examples.thinned) = one /\
  leb (SSFSample.SampleRate (SampleRate one Examples.thinned))
      (SSFSample.SampleRate Examples.thinned) = false.
Proof. repeat split. Qed.

(** C3, amended: under any chain of [RandomlySample] passes, with arbitrary
    binary32 rates, over samples whose sample rates are binary32 numbers of
    [0,1] (of (0,1] in particular), every survivor is one of the samples the
    chain started from, in the same order, with a sample rate that is not
    above the one it had; its rate is again in [0,1], so that the bound holds
    at every pass of the chain. *)
Theorem sampling_passes_non_increasing {Source : Type}
    (rand_Float32 : Source -> float32 * Source)
    (rates : list float32) (samples : list SSFSample) (g : Source) :
  Forall (fun rate => valid rate = true) rates ->
  Forall (fun s => rate_in_range (SSFSample.SampleRate s)) samples ->
  let out := fst (sampling_passes rand_Float32 rates samples g) in
  (exists kept, sublist kept samples /\ Forall2 thinned_from out kept) /\
  Forall (fun s => rate_in_range (SSFSample.SampleRate s)) out.
Proof.
  intros Hrates. revert samples g.
  induction Hrates as [|rate rates Hrate _ IH]; intros samples g Hsamples;
    cbn [sampling_passes].
  - cbn [fst]. split; [|done].
    exists samples. split; [done|].
    apply Forall_Forall2_diag. eapply Forall_impl; [exact Hsamples|].
    intros s Hs. by apply thinned_from_refl.
  - pose proof (RandomlySample_non_increasing rand_Float32 rate samples g
                  Hrate Hsamples) as [(kept1 & Hsub1 & Hthin1) Hout1].
    destruct (RandomlySample rand_Float32 rate samples g) as [out1 g1].
    cbn [fst] in Hthin1, Hout1.
    destruct (IH out1 g1 Hout1) as [(kept2 & Hsub2 & Hthin2) Hout2].
    split; [|exact Hout2].
    destruct (sublist_Forall2_r thinned_from kept2 out1 kept1 Hsub2 Hthin1)
      as (kept & Hsub & Hthin).
    exists kept. split; [by etrans|].
    eapply Forall2_trans; [|exact Hthin2|exact Hthin].
    apply thinned_from_trans.
Qed.

Lemma sampling_passes_non_increasing_witness :
  let samples := [Examples.requests; Examples.thinned; Examples.latency] in
  let out :=
    fst (sampling_passes Examples.alternating [half; one_and_half; half]
           samples false) in
  Forall (fun s => rate_in_range (SSFSample.SampleRate s)) samples /\
  (exists kept, sublist kept samples /\ Forall2 thinned_from out kept) /\
  Forall (fun s => rate_in_range (SSFSample.SampleRate s)) out.
Proof.
  assert (Forall (fun s => rate_in_range (SSFSample.SampleRate s))
            [Examples.requests; Examples.thinned; Examples.latency])
    as Hsamples by (repeat (constructor; [by apply unit_interval_in_range|]);
                    constructor).
  split; [exact Hsamples|].
  apply (sampling_passes_non_increasing Examples.alternating
           [half; one_and_half; half]); [repeat constructor|exact Hsamples].
Defined.

(** ** The constructors and the option modifiers *)

(** C6, as stated, fails: [Timing] divides the two durations as integers
    and converts the truncated quotient.  For 1500 ms at the resolution of a
    second the value is 1.0, where the floating-point quotient is 1.5. *)
Lemma Timing_truncates_quotient :
  exists s,
    Timing "" "latency" (1500 * Duration.Millisecond) Duration.Second None = Ok s /\
    SSFSample.Value s = one /\
    Timing_quotient_spec (1500 * Duration.Millisecond) Duration.Second
      = one_and_half /\
    SSFSample.Value s <>
      Timing_quotient_spec (1500 * Duration.Millisecond) Duration.Second.
Proof.
  eexists. split; [reflexivity|]. split; [reflexivity|].
  split; [reflexivity|]. discriminate.
Qed.

(** C6, amended: for a resolution other than zero, [Timing] returns a
    HISTOGRAM sample whose value is the binary32 number nearest to the
    integer quotient of the duration by the resolution, truncated towards
    zero; the unit is the symbol of the resolution when the resolution is one
    of the six entries of the table, and it is left empty otherwise. *)
Theorem Timing_sample (NamePrefix name : string) (value resolution : Z)
    (tgs : tags) :
  resolution <> 0 ->
  exists s,
    Timing NamePrefix name value resolution tgs = Ok s /\
    SSFSample.Metric s = SSFSample_HISTOGRAM /\
    SSFSample.Name s = NamePrefix +:+ name /\
    SSFSample.Value s = of_int (Duration.wrap (Z.quot value resolution)) /\
    (Duration.in_range value -> ~ (value = - 2 ^ 63 /\ resolution = -1) ->
       SSFSample.Value s = of_int (Z.quot value resolution)) /\
    SSFSample.Message s = ""%string /\
    SSFSample.Tags s = tgs /\
    SSFSample.SampleRate s = one /\
    (forall unit, (resolution, unit) ∈ resolution_table ->
       SSFSample.Unit s = unit) /\
    (resolution ∉ map fst resolution_table -> SSFSample.Unit s = ""%string).
Proof.
  intros Hres. unfold Timing, Duration.quo, bind.
  destruct (Z.eqb_spec resolution 0) as [|_]; [done|].
  assert (Duration.in_range value ->
          ~ (value = - 2 ^ 63 /\ resolution = -1) ->
          of_int (Duration.wrap (Z.quot value resolution))
            = of_int (Z.quot value resolution)) as Hquot.
  { intros Hvalue Hov. by rewrite wrap_in_range by by apply quot_in_range. }
  eexists. split; [reflexivity|]. unfold TimeUnit.
  destruct (resolutions !! resolution) as [unit'|] eqn:Hlookup;
    cbn -[of_int Z.pow]; repeat (split; [reflexivity|]);
    (split; [exact Hquot|]); repeat (split; [reflexivity|]); split.
  - intros unit Hin%resolutions_lookup_known. congruence.
  - intros Hnot%resolutions_lookup_unknown. congruence.
  - intros unit Hin%resolutions_lookup_known. congruence.
  - done.
Qed.

Lemma Timing_sample_witness :
  (exists s,
     Timing "" "latency" (1500 * Duration.Millisecond) Duration.Millisecond None
       = Ok s /\
     SSFSample.Metric s = SSFSample_HISTOGRAM /\
     SSFSample.Value s = S754_finite false 12288000 (-13) /\
     SSFSample.Unit s = "ms"%string) /\
  (exists s,
     Timing "" "latency" (1500 * Duration.Millisecond) 7 None = Ok s /\
     SSFSample.Metric s = SSFSample_HISTOGRAM /\
     SSFSample.Value s = of_int 214285714 /\
     SSFSample.Unit s = ""%string).
Proof.
  split.
  - destruct (Timing_sample "" "latency" (1500 * Duration.Millisecond)
                Duration.Millisecond None)
      as (s & Hs & Hmetric & _ & Hvalue & _ & _ & _ & _ & Hunit & _); [done|].
    exists s. split; [exact Hs|]. split; [exact Hmetric|].
    split; [exact Hvalue|]. apply Hunit. repeat constructor.
  - destruct (Timing_sample "" "latency" (1500 * Duration.Millisecond) 7 None)
      as (s & Hs & Hmetric & _ & Hvalue & _ & _ & _ & _ & _ & Hunit); [done|].
    exists s. split; [exact Hs|]. split; [exact Hmetric|].
    split; [exact Hvalue|]. apply Hunit. compute_done.
Defined.

(** C7 fails on the code: the closure that [Unit] returns receives the
    sample by value, so the unit it assigns reaches its own copy only and the
    sample it was applied to keeps its unit. *)
Theorem Unit_option_is_lost :
  (forall name s, Unit name s = s) /\
  SSFSample.Unit (Unit_callee "ms" Examples.latency) = "ms"%string /\
  SSFSample.Unit (Unit "ms" Examples.latency) = ""%string.
Proof. repeat split. Qed.

(** C8: a rate outside (0,1] makes the [SampleRate] modifier a no-op; the
    modifier has no way to fail. *)
Theorem SampleRate_outside_unit_interval (rate : float32) (s : SSFSample) :
  in_unit_interval rate = false -> SampleRate rate s = s.
Proof.
  unfold SampleRate, in_unit_interval. by intros ->.
Qed.

Lemma SampleRate_outside_unit_interval_witness :
  SSFSample.SampleRate
    (SampleRate one_and_half (Count "" "requests" one None)) = one /\
  SSFSample.SampleRate
    (SampleRate minus_point_two (Count "" "requests" one None)) = one.
Proof.
  split.
  - rewrite (SampleRate_outside_unit_interval one_and_half); reflexivity.
  - rewrite (SampleRate_outside_unit_interval minus_point_two); reflexivity.
Defined.

(** C9 fails on the code: the integer division of [Timing] panics when the
    resolution is zero. *)
Theorem Timing_zero_resolution_panics (NamePrefix name : string) (value : Z)
    (tgs : tags) :
  Timing NamePrefix name value 0 tgs = Panic integer_divide_by_zero.
Proof. reflexivity. Qed.

(** C10: the [SampleRate] modifier changes no field but the sample rate, and
    the [TimeUnit] modifier changes no field but the unit. *)
Theorem modifiers_frame (rate : float32) (resolution : Z) (s : SSFSample) :
  same_observation (SampleRate rate s) s /\
  SSFSample.Metric (SampleRate rate s) = SSFSample.Metric s /\
  SSFSample.Name (SampleRate rate s) = SSFSample.Name s /\
  SSFSample.Value (SampleRate rate s) = SSFSample.Value s /\
  SSFSample.Message (SampleRate rate s) = SSFSample.Message s /\
  SSFSample.Tags (SampleRate rate s) = SSFSample.Tags s /\
  SSFSample.Unit (SampleRate rate s) = SSFSample.Unit s /\
  SSFSample.set_Unit (SSFSample.Unit s) (TimeUnit resolution s) = s /\
  SSFSample.Metric (TimeUnit resolution s) = SSFSample.Metric s /\
  SSFSample.Name (TimeUnit resolution s) = SSFSample.Name s /\
  SSFSample.Value (TimeUnit resolution s) = SSFSample.Value s /\
  SSFSample.Message (TimeUnit resolution s) = SSFSample.Message s /\
  SSFSample.Tags (TimeUnit resolution s) = SSFSample.Tags s /\
  SSFSample.SampleRate (TimeUnit resolution s) = SSFSample.SampleRate s.
Proof.
  unfold same_observation, SampleRate, TimeUnit.
  destruct (ltb zero rate && leb rate one), (resolutions !! resolution);
    destruct s; repeat split.
Qed.


(** * Further properties of the package *)

(** ** Samples.Add *)

Lemma Add_app (s : Samples) (sample1 sample2 : list SSFSample) :
  Add (Add s sample1) sample2 = Add s (sample1 ++ sample2).
Proof.
  unfold Add. destruct (Batch s) as [batch|]; cbn [Batch];
    by rewrite app_assoc.
Qed.

(** X1: after [Add] the batch is never the nil slice, it holds the samples
    it held followed by the new ones, and two calls add what one call with
    both lists of samples adds. *)
Theorem Add_Add (s : Samples) (sample1 sample2 : list SSFSample) :
  Batch (Add s sample1) <> None /\
  contents (Add s sample1) = contents s ++ sample1 /\
  Add (Add s sample1) sample2 = Add s (sample1 ++ sample2).
Proof.
  split; [done|]. split; [|apply Add_app].
  unfold Add, contents. by destruct (Batch s).
Qed.

(** X2: adding samples one call at a time builds the batch that one call
    with all of them builds, as soon as there is a sample to add; with no
    sample at all the loop makes no call, and a nil batch stays nil where
    [Add] would make it empty. *)
Theorem Add_one_by_one (s : Samples) (samples : list SSFSample) :
  contents (foldl (fun acc x => Add acc [x]) s samples)
    = contents (Add s samples) /\
  (samples <> [] ->
   foldl (fun acc x => Add acc [x]) s samples = Add s samples) /\
  (Batch s = None ->
   Batch (foldl (fun acc x => Add acc [x]) s []) = None /\
   Batch (Add s []) = Some []).
Proof.
  assert (forall samples s x,
            foldl (fun acc x => Add acc [x]) (Add s [x]) samples
              = Add s (x :: samples)) as Hfold.
  { intros l. induction l as [|y l IH]; intros s0 x; cbn [foldl]; [done|].
    by rewrite IH, Add_app. }
  split; [|split].
  - destruct samples as [|x l]; cbn [foldl].
    + unfold Add, contents. destruct (Batch s); cbn [Batch]; by rewrite ?app_nil_r.
    + by rewrite Hfold.
  - destruct samples as [|x l]; [done|]. intros _. cbn [foldl]. apply Hfold.
  - intros Hnil. cbn [foldl]. unfold Add. by rewrite Hnil.
Qed.

Lemma Add_one_by_one_witness :
  foldl (fun acc x => Add acc [x]) {| Batch := None |}
    [Examples.requests; Examples.latency]
    = Add {| Batch := None |} [Examples.requests; Examples.latency].
Proof.
  apply (Add_one_by_one {| Batch := None |}
           [Examples.requests; Examples.latency]). done.
Defined.

(** ** The option modifiers *)

(** X3: of two [SampleRate] modifiers the last one with a rate of (0,1]
    decides: the second overrides the first when its rate is in the
    interval, and leaves the result of the first otherwise. *)
Theorem SampleRate_last_wins (rate1 rate2 : float32) (s : SSFSample) :
  SampleRate rate2 (SampleRate rate1 s) =
    if in_unit_interval rate2 then SampleRate rate2 s else SampleRate rate1 s.
Proof.
  unfold SampleRate, in_unit_interval.
  destruct (ltb zero rate2 && leb rate2 one), (ltb zero rate1 && leb rate1 one);
    by destruct s.
Qed.

(** X4: the modifiers keep a sample rate of (0,1] in (0,1], whatever their
    argument is, so a sample that a constructor built never gets a sample
    rate outside the interval from them. *)
Theorem modifiers_keep_unit_interval (rate : float32) (resolution : Z)
    (name : string) (s : SSFSample) :
  in_unit_interval (SSFSample.SampleRate s) = true ->
  in_unit_interval (SSFSample.SampleRate (SampleRate rate s)) = true /\
  in_unit_interval (SSFSample.SampleRate (TimeUnit resolution s)) = true /\
  in_unit_interval (SSFSample.SampleRate (Unit name s)) = true.
Proof.
  intros Hs. unfold SampleRate, TimeUnit, Unit. fold (in_unit_interval rate).
  destruct (in_unit_interval rate) eqn:Hrate,
    (resolutions !! resolution); done.
Qed.

Lemma modifiers_keep_unit_interval_witness :
  in_unit_interval
    (SSFSample.SampleRate (SampleRate half (Gauge "" "load" one_and_half None)))
    = true /\
  in_unit_interval
    (SSFSample.SampleRate
       (SampleRate minus_point_two (Gauge "" "load" one_and_half None)))
    = true.
Proof.
  split.
  - apply (modifiers_keep_unit_interval half 0 ""). reflexivity.
  - apply (modifiers_keep_unit_interval minus_point_two 0 ""). reflexivity.
Defined.

(** X5: the [SampleRate] and the [TimeUnit] modifier commute. *)
Theorem SampleRate_TimeUnit_commute (rate : float32) (resolution : Z)
    (s : SSFSample) :
  SampleRate rate (TimeUnit resolution s) = TimeUnit resolution (SampleRate rate s).
Proof.
  unfold SampleRate, TimeUnit.
  destruct (ltb zero rate && leb rate one), (resolutions !! resolution); done.
Qed.

Lemma resolution_known_unit (resolution : Z) :
  resolution ∈ map fst resolution_table ->
  exists unit, (resolution, unit) ∈ resolution_table /\
               resolutions !! resolution = Some unit.
Proof.
  intros ([r unit] & -> & Hin)%list_elem_of_fmap. exists unit.
  split; [exact Hin|]. by apply resolutions_lookup_known.
Qed.

Lemma resolution_table_units_distinct (r1 r2 : Z) (unit : string) :
  (r1, unit) ∈ resolution_table -> (r2, unit) ∈ resolution_table -> r1 = r2.
Proof.
  unfold resolution_table. rewrite !elem_of_cons, !elem_of_nil.
  intros H1 H2.
  repeat (destruct H1 as [H1|H1]; [injection H1 as -> ->|]); [..|done];
    repeat (destruct H2 as [H2|H2]; [by injection H2 as ->|]); done.
Qed.

(** X6: a resolution that is not one of the six entries of the table makes
    [TimeUnit] a no-op; no resolution that is zero or negative is in the
    table. *)
Theorem TimeUnit_unrecognized (resolution : Z) (s : SSFSample) :
  resolution <= 0 \/ resolution ∉ map fst resolution_table ->
  TimeUnit resolution s = s.
Proof.
  intros Hres. unfold TimeUnit. rewrite resolutions_lookup_unknown; [done|].
  destruct Hres as [Hneg|Hnot]; [|done].
  unfold resolution_table. cbn [map fst].
  rewrite !not_elem_of_cons. repeat (split; [by intros ->|]).
  apply not_elem_of_nil.
Qed.

Lemma TimeUnit_unrecognized_witness :
  TimeUnit 0 Examples.latency = Examples.latency /\
  TimeUnit (2 * Duration.Second) Examples.latency = Examples.latency.
Proof.
  split.
  - apply TimeUnit_unrecognized. left. done.
  - apply TimeUnit_unrecognized. right. compute_done.
Defined.

(** X7: a recognized resolution makes [TimeUnit] override the unit that an
    earlier [TimeUnit] set, and two recognized resolutions that leave the
    same unit are the same resolution. *)
Theorem TimeUnit_recognized (resolution1 resolution2 : Z) (s : SSFSample) :
  resolution2 ∈ map fst resolution_table ->
  TimeUnit resolution2 (TimeUnit resolution1 s) = TimeUnit resolution2 s /\
  (resolution1 ∈ map fst resolution_table ->
   SSFSample.Unit (TimeUnit resolution1 s)
     = SSFSample.Unit (TimeUnit resolution2 s) ->
   resolution1 = resolution2).
Proof.
  intros (unit2 & Hin2 & Hlookup2)%resolution_known_unit.
  unfold TimeUnit. rewrite Hlookup2. split.
  - by destruct (resolutions !! resolution1), s.
  - intros (unit1 & Hin1 & ->)%resolution_known_unit.
    destruct s. cbn [SSFSample.set_Unit SSFSample.Unit]. intros ->.
    by eapply resolution_table_units_distinct.
Qed.

Lemma TimeUnit_recognized_witness :
  TimeUnit Duration.Hour (TimeUnit Duration.Second Examples.latency)
    = TimeUnit Duration.Hour Examples.latency.
Proof.
  apply (TimeUnit_recognized Duration.Second Duration.Hour). compute_done.
Defined.

(** ** Timing *)

Lemma quot_small_abs (a b : Z) : Z.abs a < Z.abs b -> Z.quot a b = 0.
Proof.
  intros Hab. assert (b <> 0) as Hb by lia.
  assert (Z.abs (Z.quot a b) = 0); [|lia].
  rewrite <- Z.quot_abs by done. apply Z.quot_small. lia.
Qed.

(** X8: a duration that is shorter than the resolution, in absolute value,
    is reported as the value 0: the integer division drops it. *)
Theorem Timing_below_resolution (NamePrefix name : string)
    (value resolution : Z) (tgs : tags) :
  Z.abs value < Z.abs resolution ->
  exists s,
    Timing NamePrefix name value resolution tgs = Ok s /\
    SSFSample.Value s = zero.
Proof.
  intros Hsmall. unfold Timing, Duration.quo, bind.
  destruct (Z.eqb_spec resolution 0) as [->|_]; [lia|].
  rewrite quot_small_abs by done.
  eexists. split; [reflexivity|].
  unfold TimeUnit. by destruct (resolutions !! resolution).
Qed.

Lemma Timing_below_resolution_witness :
  exists s,
    Timing "" "latency" (999 * Duration.Microsecond) Duration.Millisecond None
      = Ok s /\
    SSFSample.Value s = zero.
Proof.
  apply Timing_below_resolution. vm_compute. reflexivity.
Defined.



(** *** The conversion of small integers is exact *)

Lemma iter_xO_pow (p k : positive) :
  Zpos (Pos.iter xO p k) = Zpos p * 2 ^ Zpos k.
Proof.
  pose proof (shift_pos_correct k p) as Hshift.
  unfold shift_pos in Hshift. rewrite Hshift.
  rewrite Zpower_pos_nat, Zpower_nat_Z, positive_nat_Z. lia.
Qed.

(** A mantissa of 24 digits is left as it is. *)
Lemma binary_round_aux_canonical (s : bool) (m : positive) (e : Z) :
  2 ^ 23 <= Zpos m < 2 ^ 24 -> -149 <= e <= 104 ->
  binary_round_aux prec emax s (Zpos m) e loc_Exact = S754_finite s m e.
Proof.
  intros [Hlo Hhi] He.
  assert (Zpos (digits2_pos m) = 24) as Hd.
  { pose proof (digits2_pos_le m 24 Hhi).
    pose proof (digits2_pos_gt m 23 ltac:(lia) Hlo). lia. }
  pose proof (binary_round_aux_exact s m e) as Hround.
  cbv zeta in Hround. rewrite fexp_binary32, Hd in Hround.
  replace (Z.max (24 + e - 24) (-149)) with e in Hround by lia.
  destruct Hround as (m' & _ & Hexact & _ & _ & ->); [lia|].
  replace (e - e) with 0 in Hexact by lia.
  rewrite Z.pow_0_r, Z.mod_1_r, Z.div_1_r in Hexact.
  rewrite Hexact by done.
  destruct (Z.ltb_spec (Zpos m) (2 ^ 24)) as [_|]; [|lia].
  unfold round_result. change (emax - prec) with 104.
  destruct (Z.leb_spec e 104); [done|lia].
Qed.

Lemma binary_round_exact (s : bool) (p : positive) :
  Zpos p <= 2 ^ 24 ->
  integer_value (binary_round prec emax s p 0) = Some (cond_Zopp s (Zpos p)).
Proof.
  intros Hp. destruct (Z.eq_dec (Zpos p) (2 ^ 24)) as [Heq|Hne].
  { assert (p = 16777216%positive) as -> by (apply Pos2Z.inj; exact Heq).
    by destruct s. }
  assert (Zpos p < 2 ^ 24) as Hlt by lia.
  pose proof (digits2_pos_bounds p) as [Hlo Hhi].
  pose proof (digits2_pos_le p 24 Hlt) as Hd.
  set (d := Zpos (digits2_pos p)) in *.
  assert (0 < 2 ^ (24 - d)) as Hpow by (apply Z.pow_pos_nonneg; lia).
  assert (2 ^ 23 = 2 ^ (d - 1) * 2 ^ (24 - d)) as H23
    by (rewrite <- Z.pow_add_r by lia; f_equal; lia).
  assert (2 ^ 24 = 2 ^ d * 2 ^ (24 - d)) as H24
    by (rewrite <- Z.pow_add_r by lia; f_equal; lia).
  assert (exists mz,
            Zpos mz = Zpos p * 2 ^ (24 - d) /\
            shl_align p 0 (fexp prec emax (d + 0)) = (mz, d - 24))
    as (mz & Hmz & Halign).
  { unfold shl_align. rewrite fexp_binary32.
    replace (Z.max (d + 0 - 24) (-149) - 0) with (d - 24) by lia.
    replace (Z.max (d + 0 - 24) (-149)) with (d - 24) by lia.
    destruct (d - 24) as [|k|k] eqn:Hk; [|lia|].
    - exists p. split; [|done].
      replace (24 - d) with 0 by lia. rewrite Z.pow_0_r. lia.
    - exists (Pos.iter xO p k). split; [|done].
      rewrite iter_xO_pow. f_equal. f_equal. lia. }
  unfold binary_round. fold d. rewrite Halign.
  assert (1 <= d) as Hd1 by (unfold d; lia).
  rewrite binary_round_aux_canonical by (rewrite ?Hmz; nia).
  unfold integer_value. destruct (Z.leb_spec 0 (d - 24)) as [H0|Hneg].
  - assert (d = 24) as Hd24 by lia. rewrite Hd24 in *.
    rewrite Hmz. change (24 - 24) with 0.
    rewrite !Z.pow_0_r. f_equal. f_equal. lia.
  - replace (- (d - 24)) with (24 - d) by lia.
    rewrite Hmz, Z.mod_mul, Z.div_mul by lia.
    by rewrite Z.eqb_refl.
Qed.

Lemma of_int_exact (q : Z) :
  Z.abs q <= 2 ^ 24 -> integer_value (of_int q) = Some q.
Proof.
  intros Hq. unfold of_int, binary_normalize.
  destruct q as [|p|p]; [done| |].
  - rewrite binary_round_exact by lia. done.
  - rewrite binary_round_exact by lia. done.
Qed.

(** X10: when the quotient of the duration by the resolution has at most
    24 bits, that is an absolute value of at most 16777216, the value that
    [Timing] reports is that integer exactly: the conversion to [float32]
    does not round. *)
Theorem Timing_exact (NamePrefix name : string) (value resolution : Z)
    (tgs : tags) :
  resolution <> 0 -> Z.abs (Z.quot value resolution) <= 2 ^ 24 ->
  exists s,
    Timing NamePrefix name value resolution tgs = Ok s /\
    integer_value (SSFSample.Value s) = Some (Z.quot value resolution).
Proof.
  intros Hres Hq. unfold Timing, Duration.quo, bind.
  destruct (Z.eqb_spec resolution 0) as [|_]; [done|].
  rewrite wrap_in_range by (unfold Duration.in_range; lia).
  eexists. split; [reflexivity|].
  unfold TimeUnit.
  destruct (resolutions !! resolution); by apply of_int_exact.
Qed.

Lemma Timing_exact_witness :
  (exists s,
     Timing "" "latency" (16777216 * Duration.Second + 1) Duration.Second None
       = Ok s /\
     integer_value (SSFSample.Value s) = Some 16777216) /\
  integer_value (of_int 16777217) = Some 16777216.
Proof.
  split; [|reflexivity].
  apply (Timing_exact "" "latency" (16777216 * Duration.Second + 1)
           Duration.Second None); [done|].
  vm_compute. discriminate.
Defined.

(** ** RandomlySample *)

Lemma included_map (f : SSFSample -> SSFSample) (rate : float32)
    (samples : list SSFSample) (us : list float32) :
  included rate (map f samples) us = map f (included rate samples us).
Proof.
  unfold included.
  induction samples as [|s rest IH] in us |- *; [done|].
  destruct us as [|u us]; [done|].
  cbn [map combine List.filter snd]. destruct (leb u rate); cbn [map fst];
    by rewrite IH.
Qed.

Lemma included_app (rate : float32) (xs ys : list SSFSample)
    (us vs : list float32) :
  length us = length xs ->
  included rate (xs ++ ys) (us ++ vs)
    = included rate xs us ++ included rate ys vs.
Proof.
  unfold included.
  induction xs as [|x xs IH] in us |- *; destruct us as [|u us];
    try done.
  intros [= Hlen]. cbn [app combine List.filter snd].
  destruct (leb u rate); cbn [map fst app]; by rewrite IH.
Qed.

(** The draws of a predicate that is [pass] on every drawn number. *)
Lemma included_ext (pass : float32 -> bool) (rate : float32)
    (samples : list SSFSample) (us : list float32) :
  Forall (fun u => leb u rate = pass u) us ->
  included rate samples us
    = map fst (List.filter (fun su => pass (snd su)) (combine samples us)).
Proof.
  unfold included. intros Hus. f_equal.
  induction samples as [|s rest IH] in us, Hus |- *; [done|].
  destruct us as [|u us]; [done|].
  apply Forall_cons in Hus as [Hu Hus].
  cbn [combine List.filter snd]. rewrite Hu, (IH us Hus). done.
Qed.

Lemma sublist_map_inv {A B : Type} (f : A -> B) (k : list B) (l : list A) :
  sublist k (map f l) -> exists l', k = map f l' /\ sublist l' l.
Proof.
  induction l as [|x l IH] in k |- *; cbn [map].
  - intros ->%sublist_nil_r. by exists [].
  - intros Hsub. inversion Hsub as [|y k' ? Hsub'|y ? ? Hsub']; subst.
    + destruct (IH _ Hsub') as (l' & -> & Hl').
      exists (x :: l'). split; [done|by apply sublist_skip].
    + destruct (IH _ Hsub') as (l' & -> & Hl').
      exists l'. split; [done|by apply sublist_cons].
Qed.

Lemma set_SampleRate_same (s : SSFSample) :
  SSFSample.set_SampleRate (SSFSample.SampleRate s) s = s.
Proof. by destruct s. Qed.

Lemma mul_comm (x y : float32) : mul x y = mul y x.
Proof.
  unfold mul.
  destruct x as [[]|[]| |[] mx ex], y as [[]|[]| |[] my ey];
    cbn [SFmul xorb]; try reflexivity;
    by rewrite Pos.mul_comm, Z.add_comm.
Qed.

Lemma leb_zero_rate (u : float32) (s : bool) :
  in_half_open u = true -> leb u (S754_zero s) = is_zero u.
Proof.
  unfold in_half_open, leb, ltb, SFleb, SFltb, zero.
  by destruct u as [su|[]| |[] mu eu].
Qed.

Lemma leb_negative_rate (u rate : float32) :
  in_half_open u = true -> ltb rate zero = true -> leb u rate = false.
Proof.
  unfold in_half_open, leb, ltb, SFleb, SFltb, zero.
  destruct u as [su|[]| |[] mu eu], rate as [sr|[]| |[] mr er];
    cbn [SFcompare andb]; done.
Qed.

Section Sampler_more.

Context {Source : Type}.
Variable rand_Float32 : Source -> float32 * Source.

Lemma draws_app (n m : nat) (g : Source) :
  draws rand_Float32 (n + m) g
    = draws rand_Float32 n g ++ draws rand_Float32 m (advance rand_Float32 n g).
Proof.
  induction n as [|n IH] in g |- *; cbn [draws advance Nat.add app]; [done|].
  destruct (rand_Float32 g) as [u g']. cbn [snd app]. by rewrite IH.
Qed.

Lemma advance_app (n m : nat) (g : Source) :
  advance rand_Float32 (n + m) g
    = advance rand_Float32 m (advance rand_Float32 n g).
Proof.
  induction n as [|n IH] in g |- *; cbn [advance Nat.add]; [done|].
  by rewrite IH.
Qed.

Lemma RandomlySample_pair (rate : float32) (samples : list SSFSample)
    (g : Source) :
  RandomlySample rand_Float32 rate samples g =
    (map (fun s => if in_unit_interval rate then scaled rate s else s)
       (included rate samples (draws rand_Float32 (length samples) g)),
     advance rand_Float32 (length samples) g).
Proof. unfold RandomlySample. by rewrite RandomlySample_loop_spec. Qed.

End Sampler_more.

(** X11: [RandomlySample] draws one number for each sample of its input,
    included or not, whatever the rate is: it leaves the generator in the
    state that as many calls of [rand.Float32] as there are samples lead
    to. *)
Theorem RandomlySample_one_draw_per_sample {Source : Type}
    (rand_Float32 : Source -> float32 * Source)
    (rate : float32) (samples : list SSFSample) (g : Source) :
  snd (RandomlySample rand_Float32 rate samples g)
    = advance rand_Float32 (length samples) g.
Proof. by rewrite RandomlySample_pair. Qed.

(** X12: sampling a batch in two parts, the second part with the generator
    that the first part left, gives the survivors of sampling the whole
    batch at once, and leaves the same generator. *)
Theorem RandomlySample_app {Source : Type}
    (rand_Float32 : Source -> float32 * Source)
    (rate : float32) (samples1 samples2 : list SSFSample) (g : Source) :
  RandomlySample rand_Float32 rate (samples1 ++ samples2) g =
    let '(out1, g1) := RandomlySample rand_Float32 rate samples1 g in
    let '(out2, g2) := RandomlySample rand_Float32 rate samples2 g1 in
    (out1 ++ out2, g2).
Proof.
  rewrite !RandomlySample_pair, length_app, draws_app, advance_app.
  rewrite included_app by apply draws_length.
  by rewrite map_app.
Qed.

(** X13: a rate that is not a number excludes every sample, and so does a
    negative rate when the draws are numbers of [0,1). *)
Theorem RandomlySample_excludes_all {Source : Type}
    (rand_Float32 : Source -> float32 * Source)
    (rate : float32) (samples : list SSFSample) (g : Source) :
  rate = S754_nan \/
  (ltb rate zero = true /\
   forall g, in_half_open (fst (rand_Float32 g)) = true) ->
  fst (RandomlySample rand_Float32 rate samples g) = [].
Proof.
  intros Hrate. rewrite RandomlySample_spec.
  rewrite (included_ext (fun _ => false)).
  - by induction (combine samples (draws rand_Float32 (length samples) g)).
  - apply draws_Forall. intros g'. destruct Hrate as [->|[Hneg Hrand]].
    + unfold leb, SFleb. by destruct (fst (rand_Float32 g')) as [|[]| |[]].
    + by apply leb_negative_rate.
Qed.

Lemma RandomlySample_excludes_all_witness :
  fst (RandomlySample Examples.alternating S754_nan
         [Examples.requests; Examples.thinned; Examples.latency] false) = [] /\
  fst (RandomlySample Examples.alternating minus_point_two
         [Examples.requests; Examples.thinned; Examples.latency] false) = [].
Proof.
  split.
  - apply RandomlySample_excludes_all. by left.
  - apply RandomlySample_excludes_all. right.
    split; [reflexivity|]. intros []; reflexivity.
Defined.

(** X14: with the rate zero, of either sign, and draws of [0,1), the
    survivors are the samples whose draw was a zero, and they are
    unchanged. *)
Theorem RandomlySample_rate_zero {Source : Type}
    (rand_Float32 : Source -> float32 * Source)
    (rate : float32) (samples : list SSFSample) (g : Source) :
  is_zero rate = true ->
  (forall g, in_half_open (fst (rand_Float32 g)) = true) ->
  fst (RandomlySample rand_Float32 rate samples g) =
    map fst (List.filter (fun su => is_zero (snd su))
               (combine samples (draws rand_Float32 (length samples) g))).
Proof.
  intros Hzero Hrand. destruct rate as [s| | |]; try discriminate.
  rewrite RandomlySample_spec.
  replace (in_unit_interval (S754_zero s)) with false by by destruct s.
  rewrite List.map_id. apply included_ext, draws_Forall.
  intros g'. by apply leb_zero_rate.
Qed.

Lemma RandomlySample_rate_zero_witness :
  fst (RandomlySample Examples.alternating zero
         [Examples.requests; Examples.thinned; Examples.latency] false) = [] /\
  fst (RandomlySample (fun g : unit => (zero, g)) (S754_zero true)
         [Examples.requests; Examples.thinned] tt)
    = [Examples.requests; Examples.thinned].
Proof.
  split.
  - rewrite (RandomlySample_rate_zero Examples.alternating zero);
      [reflexivity|reflexivity|]. intros []; reflexivity.
  - rewrite (RandomlySample_rate_zero (fun g : unit => (zero, g))
               (S754_zero true)); [reflexivity|reflexivity|].
    intros []; reflexivity.
Defined.

(** X15: after a chain of passes every survivor is one of the samples the
    chain started from, in the same order, and its sample rate is the rate
    it had multiplied in turn by each rate of the chain that lies in (0,1],
    in the order of the passes; the rates outside (0,1] do not count. *)
Theorem sampling_passes_rate_after {Source : Type}
    (rand_Float32 : Source -> float32 * Source)
    (rates : list float32) (samples : list SSFSample) (g : Source) :
  exists kept,
    sublist kept samples /\
    fst (sampling_passes rand_Float32 rates samples g) =
      map (fun s =>
             SSFSample.set_SampleRate
               (rate_after rates (SSFSample.SampleRate s)) s) kept.
Proof.
  induction rates as [|rate rates IH] in samples, g |- *;
    cbn [sampling_passes].
  - exists samples. split; [done|]. cbn [fst]. unfold rate_after. cbn [foldl].
    rewrite (List.map_ext _ id) by apply set_SampleRate_same.
    by rewrite List.map_id.
  - rewrite RandomlySample_pair.
    set (out1 := map _ (included rate samples _)).
    destruct (IH out1 (advance rand_Float32 (length samples) g))
      as (kept2 & Hsub2 & ->).
    apply sublist_map_inv in Hsub2 as (kept & -> & Hsub).
    exists kept. split; [etrans; [exact Hsub|apply included_sublist]|].
    rewrite List.map_map. apply List.map_ext. intros s.
    unfold rate_after, scaled. cbn [foldl].
    destruct (in_unit_interval rate); by destruct s.
Qed.

(** X16: on samples that still carry the sample rate 1.0 of the
    constructors, a pass of [RandomlySample] gives every survivor what the
    modifier [SampleRate] of the same rate gives it: the rate itself when it
    lies in (0,1], no change otherwise. *)
Theorem RandomlySample_fresh {Source : Type}
    (rand_Float32 : Source -> float32 * Source)
    (rate : float32) (samples : list SSFSample) (g : Source) :
  valid rate = true ->
  Forall (fun s => SSFSample.SampleRate s = one) samples ->
  fst (RandomlySample rand_Float32 rate samples g) =
    map (SampleRate rate)
      (included rate samples (draws rand_Float32 (length samples) g)).
Proof.
  intros Hrate Hfresh. rewrite RandomlySample_spec.
  apply List.map_ext_in. intros s Hs%list_elem_of_In%included_elem.
  eapply Forall_forall in Hfresh; [|exact Hs].
  unfold SampleRate, scaled. fold (in_unit_interval rate).
  destruct (in_unit_interval rate); [|done].
  by rewrite Hfresh, mul_comm, mul_one.
Qed.

Lemma RandomlySample_fresh_witness :
  fst (RandomlySample Examples.alternating Examples.three_quarters
         [Count "" "requests" one None; Gauge "" "load" half None;
          Set_ "" "users" "user123" None] false)
    = [SampleRate Examples.three_quarters (Count "" "requests" one None);
       SampleRate Examples.three_quarters (Gauge "" "load" half None);
       SampleRate Examples.three_quarters (Set_ "" "users" "user123" None)].
Proof.
  rewrite (RandomlySample_fresh Examples.alternating Examples.three_quarters);
    [reflexivity|reflexivity|repeat constructor].
Defined.

(** X17: setting the time unit of the samples and sampling them commute:
    the draws decide inclusion, not what the samples hold. *)
Theorem RandomlySample_TimeUnit {Source : Type}
    (rand_Float32 : Source -> float32 * Source)
    (rate : float32) (resolution : Z) (samples : list SSFSample) (g : Source) :
  RandomlySample rand_Float32 rate (map (TimeUnit resolution) samples) g =
    (map (TimeUnit resolution)
       (fst (RandomlySample rand_Float32 rate samples g)),
     snd (RandomlySample rand_Float32 rate samples g)).
Proof.
  rewrite !RandomlySample_pair, length_map, included_map. cbn [fst snd].
  f_equal. rewrite !List.map_map. apply List.map_ext. intros s.
  unfold TimeUnit, scaled.
  destruct (in_unit_interval rate), (resolutions !! resolution);
    by destruct s.
Qed.
